(** * Sound-level meter: block processor, Leq accumulator and timestamp check

    A shallow embedding of [noisemeter-device/spl-meter.cpp] and
    [noisemeter-device/timestamp.h].

    The translation unit includes three headers that are not part of the
    sources at hand: [spl-meter.h] (the [SPLMeter] class with its members
    [samples], [Leq_sum_sqr] and [Leq_samples]), [board.h] (the macros
    [SAMPLE_RATE], [SAMPLE_BITS], [SAMPLES_SHORT], [MIC_OVERLOAD_DB] and
    [MIC_NOISE_DB]) and [sos-iir-filter.h] (the filter objects).  What they
    declare is taken as a parameter: the board constants and the two filter
    objects form a [Board], and the floating-point arithmetic, with the C
    library's [sqrt], [log10] and [pow], forms a [FloatOps] interface.  The
    statements about the accumulator hold for every arithmetic and every
    board; a concrete IEEE single-precision arithmetic with identity filters
    is given at the end of the definitions to evaluate the code on inputs.

    Two choices stand in for declarations of [spl-meter.h].  All
    floating-point quantities, [Leq_sum_sqr] included, have one type.  The
    counter [Leq_samples] is an unbounded integer: between calls it is below
    the window and after the addition of line 102 it is below the window
    plus one block ([samples_bounded]), so it does not wrap in any integer
    type that holds that sum. *)

From Stdlib Require Import ZArith List Bool Lia Sorted.
From Stdlib Require Import Floats.SpecFloat.
Import ListNotations.

Local Open Scope Z_scope.

(** ** Arithmetic of the target *)

(** The operations of the floating-point type the meter computes in.
    [of_Z] is the conversion of an integer to that type, [flt a b] the
    comparison [a < b] and [fisnan] is [std::isnan]. *)
Class FloatOps (F : Type) : Type := {
  fadd   : F -> F -> F;
  fmul   : F -> F -> F;
  fdiv   : F -> F -> F;
  fsqrt  : F -> F;
  flog10 : F -> F;
  fpow   : F -> F -> F;
  flt    : F -> F -> bool;
  fisnan : F -> bool;
  of_Z   : Z -> F
}.

(** A filter object: [filter w xs] is the call [f.filter(in, out, len)] on a
    filter whose delay line holds [w]; it answers the new delay line, the
    filtered samples and their sum of squares. *)
Record Filter (F : Type) : Type := {
  fstate : Type;
  filter : fstate -> list F -> fstate * list F * F
}.
Arguments fstate {F} _.
Arguments filter {F} _ _ _.

(** The constants of [board.h], and the two filter objects that the macros
    [MIC_EQUALIZER] and [WEIGHTING] select ([SPH0645LM4H_B_RB] and
    [A_weighting] in the source, [None] for no filtering). *)
Record Board (F : Type) : Type := {
  SAMPLE_RATE : Z;
  SAMPLE_BITS : Z;
  MIC_OVERLOAD_DB : F;
  MIC_NOISE_DB : F;
  equalizer : Filter F;
  weighting : Filter F
}.
Arguments SAMPLE_RATE {F} _.
Arguments SAMPLE_BITS {F} _.
Arguments MIC_OVERLOAD_DB {F} _.
Arguments MIC_NOISE_DB {F} _.
Arguments equalizer {F} _.
Arguments weighting {F} _.

(** ** spl-meter.cpp *)

Section Meter.
Context {F : Type} {ops : FloatOps F} (board : Board F).

(** Constants and configuration, lines 14 to 32. *)
Definition LEQ_PERIOD : Z := 1.
Definition WEIGHTING : Filter F := weighting board.
Definition MIC_EQUALIZER : Filter F := equalizer board.
Definition MIC_OFFSET_DB : F := of_Z 0.
Definition MIC_SENSITIVITY : F := of_Z (-26).
Definition MIC_REF_DB : F := of_Z 94.
Definition MIC_BITS : Z := 24.

(** [#define MIC_CONVERT(s) (s >> (SAMPLE_BITS - MIC_BITS))] on a signed
    sample. *)
Definition MIC_CONVERT (s : Z) : Z :=
  Z.shiftr s (SAMPLE_BITS board - MIC_BITS).

Definition SAMPLES_LEQ : Z := SAMPLE_RATE board * LEQ_PERIOD.

(** Line 35:
    [std::pow(10.f, MIC_SENSITIVITY / 20.f) * ((1 << (MIC_BITS - 1)) - 1)]. *)
Definition MIC_REF_AMPL : F :=
  fmul (fpow (of_Z 10) (fdiv MIC_SENSITIVITY (of_Z 20)))
       (of_Z (Z.shiftl 1 (MIC_BITS - 1) - 1)).

(** The members of [SPLMeter] that [readMicrophoneData] reads and writes:
    the two accumulators and the delay lines of the two filter objects.
    The [samples] buffer is refilled by [i2sRead] at the start of every
    call, so it is the argument of the call here. *)
Record SPLMeter : Type := {
  eq_w : fstate MIC_EQUALIZER;
  weighting_w : fstate WEIGHTING;
  Leq_sum_sqr : F;
  Leq_samples : Z
}.

(** The expression of lines 91 and 110:
    [MIC_OFFSET_DB + MIC_REF_DB + 20 * std::log10(rms / MIC_REF_AMPL)]. *)
Definition to_dB (rms : F) : F :=
  fadd (fadd MIC_OFFSET_DB MIC_REF_DB)
       (fmul (of_Z 20) (flog10 (fdiv rms MIC_REF_AMPL))).

(** Lines 78 and 79: every sample is shifted and stored back as a float. *)
Definition convert (samples : list Z) : list F :=
  map (fun s => of_Z (MIC_CONVERT s)) samples.

(** [samples.size()]. *)
Definition size (samples : list Z) : Z := Z.of_nat (length samples).

(** Lines 84 and 87: the equalizer runs on the converted block, the
    weighting filter on the equalizer's output.  The result holds the two
    new delay lines and the two sums of squares. *)
Definition filtered (m : SPLMeter) (samples : list Z)
  : fstate MIC_EQUALIZER * fstate WEIGHTING * F * F :=
  let '(w1, eq_out, sum_sqr_SPL) :=
    filter MIC_EQUALIZER (eq_w m) (convert samples) in
  let '(w2, _, sum_sqr_weighted) :=
    filter WEIGHTING (weighting_w m) eq_out in
  (w1, w2, sum_sqr_SPL, sum_sqr_weighted).

Definition sum_sqr_SPL (m : SPLMeter) (samples : list Z) : F :=
  snd (fst (filtered m samples)).

Definition sum_sqr_weighted (m : SPLMeter) (samples : list Z) : F :=
  snd (filtered m samples).

(** Lines 90 and 91. *)
Definition short_RMS (m : SPLMeter) (samples : list Z) : F :=
  fsqrt (fdiv (sum_sqr_SPL m samples) (of_Z (size samples))).

Definition short_SPL_dB (m : SPLMeter) (samples : list Z) : F :=
  to_dB (short_RMS m samples).

(** The two tests of lines 94 and 96. *)
Definition overload (dB : F) : bool := flt (MIC_OVERLOAD_DB board) dB.

Definition below_noise (dB : F) : bool :=
  fisnan dB || flt dB (MIC_NOISE_DB board).

(** Lines 94 to 98: the value of [Leq_sum_sqr] after the [if]. *)
Definition clamp (dB : F) (sum : F) : F :=
  if overload dB then MIC_OVERLOAD_DB board
  else if below_noise dB then MIC_NOISE_DB board
  else sum.

(** The meter after lines 73 to 102, before the test of line 105. *)
Definition accumulate (m : SPLMeter) (samples : list Z) : SPLMeter :=
  let '(w1, w2, _, weighted) := filtered m samples in
  {| eq_w := w1;
     weighting_w := w2;
     Leq_sum_sqr :=
       fadd (clamp (short_SPL_dB m samples) (Leq_sum_sqr m)) weighted;
     Leq_samples := Leq_samples m + size samples |}.

(** Lines 106 and 110: the value a full window reports. *)
Definition Leq_dB (sum : F) (count : Z) : F :=
  to_dB (fsqrt (fdiv sum (of_Z count))).

(** Lines 105 to 113. *)
Definition emit (m : SPLMeter) : option F * SPLMeter :=
  if SAMPLE_RATE board * LEQ_PERIOD <=? Leq_samples m then
    (Some (Leq_dB (Leq_sum_sqr m) (Leq_samples m)),
     {| eq_w := eq_w m;
        weighting_w := weighting_w m;
        Leq_sum_sqr := of_Z 0;
        Leq_samples := 0 |})
  else (None, m).

(** [SPLMeter::readMicrophoneData]: the block that [i2sRead] delivered is
    processed, and the call answers the window's level or nothing. *)
Definition readMicrophoneData (m : SPLMeter) (samples : list Z)
  : option F * SPLMeter :=
  emit (accumulate m samples).

(** A meter whose accumulators are zero, as at start-up;
    [initMicrophone] reads one block and leaves the accumulators alone. *)
Definition start (w1 : fstate MIC_EQUALIZER) (w2 : fstate WEIGHTING)
  : SPLMeter :=
  {| eq_w := w1; weighting_w := w2; Leq_sum_sqr := of_Z 0; Leq_samples := 0 |}.

(** Successive calls, one per block: the values answered, in order. *)
Fixpoint outputs (m : SPLMeter) (blocks : list (list Z)) : list (option F) :=
  match blocks with
  | [] => []
  | b :: rest =>
      let '(o, m') := readMicrophoneData m b in o :: outputs m' rest
  end.

(** The meter after the calls. *)
Fixpoint after (m : SPLMeter) (blocks : list (list Z)) : SPLMeter :=
  match blocks with
  | [] => m
  | b :: rest => after (snd (readMicrophoneData m b)) rest
  end.

Definition emitted (o : option F) : bool :=
  match o with Some _ => true | None => false end.

(** What a caller can observe of a run: for every call the size of the
    block and whether a value came back. *)
Definition history (m : SPLMeter) (blocks : list (list Z)) : list (Z * bool) :=
  combine (map size blocks) (map emitted (outputs m blocks)).

(** The number of samples received since the last value came back,
    counted on the observed history from [c] samples at its start. *)
Fixpoint since_emission (c : Z) (h : list (Z * bool)) : Z :=
  match h with
  | [] => c
  | (n, e) :: rest => since_emission (if e then 0 else c + n) rest
  end.

End Meter.

Arguments eq_w {F board} _.
Arguments weighting_w {F board} _.
Arguments Leq_sum_sqr {F board} _.
Arguments Leq_samples {F board} _.
Arguments filtered {F ops board} _ _.
Arguments sum_sqr_SPL {F ops board} _ _.
Arguments sum_sqr_weighted {F ops board} _ _.
Arguments short_RMS {F ops board} _ _.
Arguments short_SPL_dB {F ops board} _ _.
Arguments accumulate {F ops board} _ _.
Arguments emit {F ops board} _.
Arguments readMicrophoneData {F ops board} _ _.
Arguments outputs {F ops board} _ _.
Arguments after {F ops board} _ _.
Arguments history {F ops board} _ _.

(** ** timestamp.h *)

(** [std::time_t tm], seconds since the epoch. *)
Record Timestamp : Type := { tm : Z }.

(** [Timestamp::valid]: [return tm >= 8 * 3600 * 2;]. *)
Definition valid (t : Timestamp) : bool := 8 * 3600 * 2 <=? tm t.

(** ** The filter [None] *)

(** Modelled from the spec: the identity filter of [sos-iir-filter.h], which
    is not among the sources.  It has no delay line, leaves the samples as
    they are and answers the sum of squares of the unfiltered signal. *)
Definition sum_of_squares {F : Type} {ops : FloatOps F} (xs : list F) : F :=
  fold_left (fun acc s => fadd acc (fmul s s)) xs (of_Z 0).

Definition No_IIR_Filter {F : Type} {ops : FloatOps F} : Filter F :=
  {| fstate := unit;
     filter := fun w xs => (w, xs, sum_of_squares xs) |}.

(** ** IEEE single precision *)

(** The arithmetic of a C [float], on the specification of IEEE 754 binary
    floating point with a 24-bit significand.  Sums, products, quotients,
    square roots and conversions round to nearest even.  [log10] and [pow]
    belong to the C library; here they are evaluated in fixed point to well
    below a unit in the last place and then rounded. *)
Module Single.

Definition prec : Z := 24.
Definition emax : Z := 128.

Definition float : Type := spec_float.

Definition of_int (z : Z) : float := binary_normalize prec emax z 0 false.

Definition isnan (x : float) : bool :=
  match x with S754_nan => true | _ => false end.


(** Bits of the fixed-point intermediate values and of the results. *)
Definition WORK : Z := 100.
Definition FRAC : nat := 40.

(** The first [n] fraction bits of the binary logarithm of [y / 2^WORK],
    for [1 <= y / 2^WORK < 2], by repeated squaring. *)
Fixpoint log2_frac (n : nat) (y acc : Z) : Z :=
  match n with
  | O => acc
  | S k =>
      let y2 := Z.shiftr (y * y) WORK in
      if Z.shiftl 2 WORK <=? y2
      then log2_frac k (Z.shiftr y2 1) (2 * acc + 1)
      else log2_frac k y2 (2 * acc)
  end.

(** The binary logarithm of [m * 2^e], scaled by [2^FRAC]. *)
Definition log2_fix (m : positive) (e : Z) : Z :=
  let k := Z.log2 (Zpos m) in
  Z.shiftl (e + k) (Z.of_nat FRAC)
  + log2_frac FRAC (Z.shiftl (Zpos m) (WORK - k)) 0.

Definition log10 (x : float) : float :=
  match x with
  | S754_nan => S754_nan
  | S754_zero _ => S754_infinity true
  | S754_infinity s => if s then S754_nan else x
  | S754_finite true _ _ => S754_nan
  | S754_finite false m e =>
      binary_normalize prec emax
        (Z.shiftl (log2_fix m e) (Z.of_nat FRAC) / log2_fix 5 1)
        (- Z.of_nat FRAC) false
  end.

(** [2^(f / 2^FRAC)] scaled by [2^WORK], for [0 <= f < 2^FRAC]: the product
    of the roots [2^(1/2)], [2^(1/4)], ... selected by the bits of [f];
    [r] is the previous root and [j] the position of the next bit. *)
Fixpoint exp2_frac (n : nat) (j : Z) (r f acc : Z) : Z :=
  match n with
  | O => acc
  | S k =>
      let r' := Z.sqrt (Z.shiftl r WORK) in
      exp2_frac k (j - 1) r' f
        (if Z.testbit f j then Z.shiftr (acc * r') WORK else acc)
  end.

(** [pow x y] for a positive finite base and a finite exponent, the case
    the meter uses; the remaining special cases answer NaN. *)
Definition pow (x y : float) : float :=
  match x, y with
  | S754_finite false mx ex, S754_finite sy my ey =>
      let t := Z.shiftl (cond_Zopp sy (Zpos my) * log2_fix mx ex) ey in
      let i := Z.shiftr t (Z.of_nat FRAC) in
      let f := Z.land t (Z.ones (Z.of_nat FRAC)) in
      binary_normalize prec emax
        (exp2_frac FRAC (Z.of_nat FRAC - 1) (Z.shiftl 2 WORK) f
           (Z.shiftl 1 WORK))
        (i - WORK) false
  | S754_finite false _ _, S754_zero _ => of_int 1
  | _, _ => S754_nan
  end.

#[global] Instance ops : FloatOps float := {|
  fadd := SFadd prec emax;
  fmul := SFmul prec emax;
  fdiv := SFdiv prec emax;
  fsqrt := SFsqrt prec emax;
  flog10 := log10;
  fpow := pow;
  flt := SFltb;
  fisnan := isnan;
  of_Z := of_int
|}.

(** A board that samples 32-bit words at 48 kHz, switches both filters
    off and takes 116 dB and 29 dB as its thresholds. *)
Definition board : Board float := {|
  SAMPLE_RATE := 48000;
  SAMPLE_BITS := 32;
  MIC_OVERLOAD_DB := of_int 116;
  MIC_NOISE_DB := of_int 29;
  equalizer := No_IIR_Filter;
  weighting := No_IIR_Filter
|}.

(** The meter of that board at start-up. *)
Definition meter : SPLMeter board := start board tt tt.

(** A meter of that board with a given running sum and sample count. *)
Definition meter_with (sum : float) (count : Z) : SPLMeter board :=
  Build_SPLMeter board tt tt sum count.

(** Blocks of 1000 raw samples: silence, a steady moderate level and a
    steady level at full scale. *)
Definition silent : list Z := repeat 0 1000.
Definition moderate : list Z := repeat (Z.shiftl 4096 8) 1000.
Definition loud : list Z := repeat (Z.shiftl 8388607 8) 1000.

(** A block of 1000 samples at a steady low level, below the noise floor
    of 29 dB. *)
Definition quiet : list Z := repeat (Z.shiftl 236 8) 1000.





End Single.

(** ** Runs of the meter, and the rest of the two files *)

Section Runs.
Context {F : Type} {ops : FloatOps F} (board : Board F).

(** Lines 31 and 32, with [SAMPLES_SHORT] of [board.h] as an argument; the
    division is that of C on integers. *)
Definition DMA_BANK_SIZE (SAMPLES_SHORT : Z) : Z := Z.quot SAMPLES_SHORT 16.
Definition DMA_BANKS : Z := 32.

(** The numeric fields of the [i2s_config_t] that [initMicrophone] hands to
    the driver, lines 39 to 53; the other fields are flags of the driver's
    headers. *)
Record i2s_config_t : Type := {
  sample_rate : Z;
  bits_per_sample : Z;
  dma_buf_count : Z;
  dma_buf_len : Z
}.

Definition i2s_config (SAMPLES_SHORT : Z) : i2s_config_t :=
  {| sample_rate := SAMPLE_RATE board;
     bits_per_sample := SAMPLE_BITS board;
     dma_buf_count := DMA_BANKS;
     dma_buf_len := DMA_BANK_SIZE SAMPLES_SHORT |}.

(** What the two filter objects do to their delay lines on one block, lines
    84 and 87 alone: the equalizer takes the converted block, the weighting
    filter the equalizer's output. *)
Definition filter_pair
    (w : fstate (MIC_EQUALIZER board) * fstate (WEIGHTING board))
    (samples : list Z)
  : fstate (MIC_EQUALIZER board) * fstate (WEIGHTING board) :=
  let '(w1, eq_out, _) :=
    filter (MIC_EQUALIZER board) (fst w) (convert board samples) in
  let '(w2, _, _) := filter (WEIGHTING board) (snd w) eq_out in
  (w1, w2).

(** The delay lines after feeding the blocks to the filters, in order. *)
Definition filters_run
    (w : fstate (MIC_EQUALIZER board) * fstate (WEIGHTING board))
    (blocks : list (list Z))
  : fstate (MIC_EQUALIZER board) * fstate (WEIGHTING board) :=
  fold_left filter_pair blocks w.

(** For every call of a run, the short-block level and the weighted sum of
    squares of its block. *)
Fixpoint steps (m : SPLMeter board) (blocks : list (list Z)) : list (F * F) :=
  match blocks with
  | [] => []
  | b :: rest =>
      (short_SPL_dB m b, sum_sqr_weighted m b)
      :: steps (snd (readMicrophoneData m b)) rest
  end.

(** Either test of lines 94 and 96 holds. *)
Definition clamps (dB : F) : bool :=
  overload board dB || below_noise board dB.

(** No call of the run clamps. *)
Definition no_clamp (m : SPLMeter board) (blocks : list (list Z)) : bool :=
  forallb (fun s => negb (clamps (fst s))) (steps m blocks).

(** The samples of all the blocks. *)
Definition total_size (blocks : list (list Z)) : Z :=
  fold_right (fun b n => size b + n) 0 blocks.

End Runs.

Arguments steps {F ops board} _ _.
Arguments no_clamp {F ops board} _ _.

(** [Timestamp()]: the object holds what [std::time] answers. *)
Definition now (time : Z) : Timestamp := {| tm := time |}.

(** [Timestamp::synchronize], lines 24 to 30.  [configTime] starts the
    network time service, whose effect shows in the clock: [clock] lists
    what [std::time] answers at the successive tests of the loop.  Every
    turn waits one second and then builds a timestamp; the loop ends at the
    first valid one.  The result is the number of waits and the readings
    not yet used, or [None] when the loop is still running after the last
    reading of the list. *)
Fixpoint synchronize (clock : list Z) : option (nat * list Z) :=
  match clock with
  | [] => None
  | time :: rest =>
      if valid (now time) then Some (1%nat, rest)
      else match synchronize rest with
           | Some (waits, unread) => Some (S waits, unread)
           | None => None
           end
  end.

(** * Properties *)

(** ** The accumulator, for every arithmetic and every board *)

Section MeterFacts.
Context {F : Type} {ops : FloatOps F} (board : Board F).

Implicit Types (m : SPLMeter board) (b : list Z) (blocks : list (list Z)).

Lemma size_nonneg b : 0 <= size b.
Proof. unfold size. lia. Qed.

Lemma accumulate_samples m b :
  Leq_samples (accumulate m b) = Leq_samples m + size b.
Proof.
  unfold accumulate. destruct (filtered m b) as [[[w1 w2] s] w].
  reflexivity.
Qed.

Lemma accumulate_sum m b :
  Leq_sum_sqr (accumulate m b)
  = fadd (clamp board (short_SPL_dB m b) (Leq_sum_sqr m))
         (sum_sqr_weighted m b).
Proof.
  unfold accumulate, sum_sqr_weighted.
  destruct (filtered m b) as [[[w1 w2] s] w]. reflexivity.
Qed.

(** What the call answers, in terms of the meter before it. *)
Lemma read_output m b :
  fst (readMicrophoneData m b)
  = if SAMPLES_LEQ board <=? Leq_samples m + size b
    then Some (Leq_dB (Leq_sum_sqr (accumulate m b))
                      (Leq_samples m + size b))
    else None.
Proof.
  unfold readMicrophoneData, emit, SAMPLES_LEQ.
  rewrite accumulate_samples.
  destruct (_ <=? _); reflexivity.
Qed.

Lemma read_emitted m b :
  emitted (fst (readMicrophoneData m b))
  = (SAMPLES_LEQ board <=? Leq_samples m + size b).
Proof. rewrite read_output. destruct (_ <=? _); reflexivity. Qed.

Lemma read_samples m b :
  Leq_samples (snd (readMicrophoneData m b))
  = if SAMPLES_LEQ board <=? Leq_samples m + size b
    then 0 else Leq_samples m + size b.
Proof.
  unfold readMicrophoneData, emit, SAMPLES_LEQ.
  rewrite accumulate_samples.
  destruct (_ <=? _); simpl; [reflexivity | apply accumulate_samples].
Qed.

Lemma read_sum m b :
  Leq_sum_sqr (snd (readMicrophoneData m b))
  = if SAMPLES_LEQ board <=? Leq_samples m + size b
    then of_Z 0 else Leq_sum_sqr (accumulate m b).
Proof.
  unfold readMicrophoneData, emit, SAMPLES_LEQ.
  rewrite accumulate_samples.
  destruct (_ <=? _); reflexivity.
Qed.

Lemma outputs_cons m b blocks :
  outputs m (b :: blocks)
  = fst (readMicrophoneData m b)
    :: outputs (snd (readMicrophoneData m b)) blocks.
Proof. simpl. destruct (readMicrophoneData m b). reflexivity. Qed.

Lemma history_cons m b blocks :
  history m (b :: blocks)
  = (size b, emitted (fst (readMicrophoneData m b)))
    :: history (snd (readMicrophoneData m b)) blocks.
Proof. unfold history. rewrite outputs_cons. reflexivity. Qed.

Lemma after_app m blocks b :
  after m (blocks ++ [b]) = snd (readMicrophoneData (after m blocks) b).
Proof.
  revert m. induction blocks as [|c rest IH]; intros m; simpl.
  - reflexivity.
  - apply IH.
Qed.

Lemma outputs_length m blocks : length (outputs m blocks) = length blocks.
Proof.
  revert m. induction blocks as [|c rest IH]; intros m.
  - reflexivity.
  - rewrite outputs_cons. simpl. now rewrite IH.
Qed.

(** The answer of call number [i] is the answer of one call on the meter
    that the calls before it left. *)
Lemma outputs_nth blocks : forall m (i : nat),
  (i < length blocks)%nat ->
  nth i (outputs m blocks) None
  = fst (readMicrophoneData (after m (firstn i blocks)) (nth i blocks [])).
Proof.
  induction blocks as [|c rest IH]; intros m i Hi; simpl in Hi.
  - lia.
  - rewrite outputs_cons. destruct i as [|i]; simpl.
    + reflexivity.
    + apply IH. lia.
Qed.

(** The member [Leq_samples] is the count a caller can keep from what it
    observes. *)
Lemma samples_since_emission blocks : forall m,
  Leq_samples (after m blocks)
  = since_emission (Leq_samples m) (history m blocks).
Proof.
  induction blocks as [|c rest IH]; intros m.
  - reflexivity.
  - rewrite history_cons. simpl. rewrite IH, read_samples, read_emitted.
    reflexivity.
Qed.

Lemma samples_nonneg blocks : forall m,
  0 <= Leq_samples m -> 0 <= Leq_samples (after m blocks).
Proof.
  induction blocks as [|c rest IH]; intros m Hm; simpl.
  - exact Hm.
  - apply IH. rewrite read_samples.
    pose proof (size_nonneg c). destruct (_ <=? _); lia.
Qed.

Lemma samples_below_window blocks : forall m,
  0 < SAMPLES_LEQ board ->
  Leq_samples m < SAMPLES_LEQ board ->
  Leq_samples (after m blocks) < SAMPLES_LEQ board.
Proof.
  induction blocks as [|c rest IH]; intros m Hw Hm; simpl.
  - exact Hm.
  - apply IH; [exact Hw|]. rewrite read_samples.
    destruct (Z.leb_spec (SAMPLES_LEQ board) (Leq_samples m + size c)); lia.
Qed.

(** After the addition of line 102 the count is below the window plus the
    block. *)
Lemma samples_bounded
    (w1 : fstate (MIC_EQUALIZER board)) (w2 : fstate (WEIGHTING board))
    blocks b :
  0 < SAMPLES_LEQ board ->
  0 <= Leq_samples (accumulate (after (start board w1 w2) blocks) b)
    < SAMPLES_LEQ board + size b.
Proof.
  intros HW. rewrite accumulate_samples.
  pose proof (samples_nonneg blocks (start board w1 w2)) as Hlo.
  pose proof (samples_below_window blocks (start board w1 w2) HW) as Hhi.
  simpl in Hlo, Hhi. pose proof (size_nonneg b). lia.
Qed.

Lemma succ_mod (a k : Z) :
  0 <= a -> 0 < k ->
  (a + 1) mod k = if a mod k =? k - 1 then 0 else a mod k + 1.
Proof.
  intros Ha Hk. destruct (Z.eqb_spec (a mod k) (k - 1)) as [E|E].
  - replace (a + 1) with (a mod k + 1 + k * (a / k))
      by (pose proof (Z.div_mod a k); lia).
    rewrite Z.mul_comm, Z.mod_add by lia. rewrite E.
    replace (k - 1 + 1) with (1 * k) by lia.
    apply Z.mod_mul. lia.
  - pose proof (Z.mod_pos_bound a k Hk).
    replace (a + 1) with (a mod k + 1 + k * (a / k))
      by (pose proof (Z.div_mod a k); lia).
    rewrite Z.mul_comm, Z.mod_add by lia.
    apply Z.mod_small. lia.
Qed.

(** With blocks of [n] samples and a window of [k] blocks, the count
    after [i] calls is [n] times the remainder of [i] by [k]. *)
Lemma uniform_samples (n k : Z) blocks : forall m,
  0 < n -> 0 < k ->
  SAMPLES_LEQ board = k * n ->
  Forall (fun b => size b = n) blocks ->
  Leq_samples m = 0 ->
  Leq_samples (after m blocks) = n * (Z.of_nat (length blocks) mod k).
Proof.
  intros m Hn Hk HW. induction blocks as [|c rest IH] using rev_ind;
    intros Hall Hm.
  - simpl. rewrite Hm, Z.mod_0_l by lia. lia.
  - apply Forall_app in Hall as [Hrest Hc].
    apply Forall_inv in Hc.
    rewrite after_app, read_samples, (IH Hrest Hm), Hc, HW.
    rewrite length_app, Nat2Z.inj_add. simpl length.
    change (Z.of_nat 1) with 1.
    rewrite succ_mod by lia.
    pose proof (Z.mod_pos_bound (Z.of_nat (length rest)) k Hk) as Hq.
    destruct (Z.eqb_spec (Z.of_nat (length rest) mod k) (k - 1)) as [E|E];
      destruct (Z.leb_spec (k * n)
                  (n * (Z.of_nat (length rest) mod k) + n)); nia.
Qed.

(** C1.  In every run that begins with the accumulators at zero, a call
    answers a value if and only if the samples received since the last
    answered value, the block of this call included, have reached the
    window of [SAMPLE_RATE * LEQ_PERIOD] samples.  The count restarts at
    zero after an answered value, so every crossing of the window answers
    once and no call before the crossing answers.  Blocks may have any
    sizes. *)
Theorem emission_iff_window_reached
    (w1 : fstate (MIC_EQUALIZER board)) (w2 : fstate (WEIGHTING board))
    blocks b :
  emitted (fst (readMicrophoneData (after (start board w1 w2) blocks) b))
    = true
  <-> SAMPLE_RATE board * LEQ_PERIOD
      <= since_emission 0 (history (start board w1 w2) blocks) + size b.
Proof.
  rewrite read_emitted, samples_since_emission. simpl Leq_samples.
  unfold SAMPLES_LEQ. apply Z.leb_le.
Qed.

(** C5.  With a positive window, in every run from start-up the sample
    count is below the window when a block arrives; a call whose block
    brings the count to the window or beyond answers a value and leaves
    both the count and the running sum at zero; any other call answers
    nothing and keeps the accumulated count and sum. *)
Theorem accumulator_invariant
    (w1 : fstate (MIC_EQUALIZER board)) (w2 : fstate (WEIGHTING board))
    blocks b :
  0 < SAMPLE_RATE board * LEQ_PERIOD ->
  0 <= Leq_samples (after (start board w1 w2) blocks)
    < SAMPLE_RATE board * LEQ_PERIOD
  /\ (SAMPLE_RATE board * LEQ_PERIOD
        <= Leq_samples (after (start board w1 w2) blocks) + size b ->
      emitted
        (fst (readMicrophoneData (after (start board w1 w2) blocks) b))
        = true
      /\ Leq_samples
           (snd (readMicrophoneData (after (start board w1 w2) blocks) b))
         = 0
      /\ Leq_sum_sqr
           (snd (readMicrophoneData (after (start board w1 w2) blocks) b))
         = of_Z 0)
  /\ (Leq_samples (after (start board w1 w2) blocks) + size b
        < SAMPLE_RATE board * LEQ_PERIOD ->
      fst (readMicrophoneData (after (start board w1 w2) blocks) b) = None
      /\ snd (readMicrophoneData (after (start board w1 w2) blocks) b)
         = accumulate (after (start board w1 w2) blocks) b).
Proof.
  intros HW. set (m := after (start board w1 w2) blocks).
  split; [split|split].
  - apply samples_nonneg. simpl. lia.
  - apply (samples_below_window blocks); [exact HW | simpl; exact HW].
  - intros Hfull. apply Z.leb_le in Hfull.
    rewrite read_emitted, read_samples, read_sum.
    unfold SAMPLES_LEQ. rewrite Hfull. auto.
  - intros Hless. apply Z.leb_gt in Hless.
    unfold readMicrophoneData, emit.
    rewrite accumulate_samples, Hless. auto.
Qed.

(** C7.  At 48000 samples a second, with the window of one second and
    blocks of 1000 samples, call number [i + 1] of a run from start-up
    answers a value exactly when [i + 1] is a multiple of 48: in every
    cycle of 48 calls the last one answers and the 47 before it do not. *)
Theorem forty_eight_blocks_per_emission
    (w1 : fstate (MIC_EQUALIZER board)) (w2 : fstate (WEIGHTING board))
    blocks (i : nat) :
  SAMPLE_RATE board = 48000 ->
  Forall (fun b => size b = 1000) blocks ->
  (i < length blocks)%nat ->
  emitted (nth i (outputs (start board w1 w2) blocks) None)
  = ((Z.of_nat i + 1) mod 48 =? 0).
Proof.
  intros Hrate Hall Hi.
  rewrite outputs_nth by exact Hi. rewrite read_emitted.
  assert (Hw : SAMPLES_LEQ board = 48 * 1000)
    by (unfold SAMPLES_LEQ, LEQ_PERIOD; lia).
  assert (Hb : size (nth i blocks []) = 1000).
  { rewrite Forall_forall in Hall. apply Hall, nth_In, Hi. }
  rewrite (uniform_samples 1000 48 (firstn i blocks)); try lia.
  - rewrite Hb, Hw, length_firstn, Nat.min_l by lia.
    rewrite succ_mod by lia.
    pose proof (Z.mod_pos_bound (Z.of_nat i) 48 ltac:(lia)) as Hq.
    destruct (Z.eqb_spec (Z.of_nat i mod 48) (48 - 1)) as [E|E].
    + rewrite E. reflexivity.
    + destruct (Z.leb_spec (48 * 1000) (1000 * (Z.of_nat i mod 48) + 1000));
        destruct (Z.eqb_spec (Z.of_nat i mod 48 + 1) 0); lia.
  - rewrite <- (firstn_skipn i blocks) in Hall.
    apply Forall_app in Hall. apply Hall.
  - reflexivity.
Qed.

(** C4.  For a block of [N] samples the short-block level is
    [offset + refDb + 20 * log10 (sqrt (sumSqrEq / N) / refAmplitude)],
    with [sumSqrEq] the sum of squares that the equalizer answers; the
    value added to the running sum is the sum of squares that the
    weighting filter answers on the equalizer's output; and the sample
    count grows by [N].  The call then tests the window on that meter. *)
Theorem short_level_and_accumulation m b :
  let eq := filter (MIC_EQUALIZER board) (eq_w m) (convert board b) in
  let wt := filter (WEIGHTING board) (weighting_w m) (snd (fst eq)) in
  short_SPL_dB m b
  = fadd (fadd MIC_OFFSET_DB MIC_REF_DB)
      (fmul (of_Z 20)
         (flog10 (fdiv (fsqrt (fdiv (snd eq) (of_Z (size b))))
                       MIC_REF_AMPL)))
  /\ Leq_sum_sqr (accumulate m b)
     = fadd (clamp board (short_SPL_dB m b) (Leq_sum_sqr m)) (snd wt)
  /\ Leq_samples (accumulate m b) = Leq_samples m + size b
  /\ readMicrophoneData m b = emit (accumulate m b).
Proof.
  intros eq wt. rewrite accumulate_sum, accumulate_samples.
  unfold short_SPL_dB, short_RMS, to_dB, sum_sqr_SPL, sum_sqr_weighted,
    filtered.
  subst wt. subst eq.
  destruct (filter (MIC_EQUALIZER board) (eq_w m) (convert board b))
    as [[w1' xs] s1]. simpl.
  destruct (filter (WEIGHTING board) (weighting_w m) xs) as [[w2' ys] s2].
  simpl. auto.
Qed.

(** C9.  On a call in which a clamp fires, the running sum after the
    accumulation step is the threshold of the clamp plus the weighted sum
    of squares of the current block, the count has grown by the size of
    the block, and the test of the window and the value it reports use
    that sum and that count. *)
Theorem clamp_keeps_current_block m b :
  overload board (short_SPL_dB m b)
    || below_noise board (short_SPL_dB m b) = true ->
  Leq_sum_sqr (accumulate m b)
  = fadd (if overload board (short_SPL_dB m b)
          then MIC_OVERLOAD_DB board else MIC_NOISE_DB board)
         (sum_sqr_weighted m b)
  /\ Leq_samples (accumulate m b) = Leq_samples m + size b
  /\ fst (readMicrophoneData m b)
     = if SAMPLE_RATE board * LEQ_PERIOD <=? Leq_samples m + size b
       then Some (Leq_dB
                    (fadd (if overload board (short_SPL_dB m b)
                           then MIC_OVERLOAD_DB board
                           else MIC_NOISE_DB board)
                          (sum_sqr_weighted m b))
                    (Leq_samples m + size b))
       else None.
Proof.
  intros Hfire.
  assert (Hsum : Leq_sum_sqr (accumulate m b)
                 = fadd (if overload board (short_SPL_dB m b)
                         then MIC_OVERLOAD_DB board
                         else MIC_NOISE_DB board)
                        (sum_sqr_weighted m b)).
  { rewrite accumulate_sum. unfold clamp.
    destruct (overload board (short_SPL_dB m b)); [reflexivity|].
    simpl in Hfire. rewrite Hfire. reflexivity. }
  split; [exact Hsum|]. split; [apply accumulate_samples|].
  rewrite read_output, Hsum. reflexivity.
Qed.

(** The filters and the short-block level do not look at the
    accumulators. *)
Lemma filtered_same m1 m2 b :
  eq_w m1 = eq_w m2 -> weighting_w m1 = weighting_w m2 ->
  filtered m1 b = filtered m2 b.
Proof. intros H1 H2. unfold filtered. rewrite H1, H2. reflexivity. Qed.

Lemma short_SPL_dB_same m1 m2 b :
  eq_w m1 = eq_w m2 -> weighting_w m1 = weighting_w m2 ->
  short_SPL_dB m1 b = short_SPL_dB m2 b.
Proof.
  intros H1 H2. unfold short_SPL_dB, short_RMS, sum_sqr_SPL.
  rewrite (filtered_same m1 m2 b H1 H2). reflexivity.
Qed.

(** The clamp to the noise floor, for every arithmetic: a block whose
    short-block level is not a number or below the noise-floor threshold,
    and not above the overload threshold, sets the running sum to the
    noise-floor threshold before its weighted sum is added. *)
Lemma noise_floor_clamp m b :
  below_noise board (short_SPL_dB m b) = true ->
  overload board (short_SPL_dB m b) = false ->
  Leq_sum_sqr (accumulate m b)
  = fadd (MIC_NOISE_DB board) (sum_sqr_weighted m b)
  /\ fst (readMicrophoneData m b)
     = if SAMPLE_RATE board * LEQ_PERIOD <=? Leq_samples m + size b
       then Some (Leq_dB
                    (fadd (MIC_NOISE_DB board) (sum_sqr_weighted m b))
                    (Leq_samples m + size b))
       else None.
Proof.
  intros Hnoise Hover.
  assert (Hsum : Leq_sum_sqr (accumulate m b)
                 = fadd (MIC_NOISE_DB board) (sum_sqr_weighted m b)).
  { rewrite accumulate_sum. unfold clamp. rewrite Hover, Hnoise.
    reflexivity. }
  split; [exact Hsum|]. rewrite read_output, Hsum. reflexivity.
Qed.

(** C8.  When the sample words are at least as wide as the microphone's
    resolution, the conversion of a raw sample is its arithmetic shift to
    the right by [SAMPLE_BITS - MIC_BITS]: bit [i] of the result is bit
    [i + SAMPLE_BITS - MIC_BITS] of the sample, the value is the quotient
    of the sample by [2 ^ (SAMPLE_BITS - MIC_BITS)] rounded down, it has
    the sign of the sample, a sample of [SAMPLE_BITS] bits gives a value
    of [MIC_BITS] bits, and the block handed to the filters holds the
    converted value of every sample, in order. *)
Theorem convert_is_arithmetic_shift (s : Z) b :
  MIC_BITS <= SAMPLE_BITS board ->
  MIC_CONVERT board s = s / 2 ^ (SAMPLE_BITS board - MIC_BITS)
  /\ (forall i, 0 <= i ->
      Z.testbit (MIC_CONVERT board s) i
      = Z.testbit s (i + (SAMPLE_BITS board - MIC_BITS)))
  /\ (s < 0 <-> MIC_CONVERT board s < 0)
  /\ (- 2 ^ (SAMPLE_BITS board - 1) <= s < 2 ^ (SAMPLE_BITS board - 1) ->
      - 2 ^ (MIC_BITS - 1) <= MIC_CONVERT board s < 2 ^ (MIC_BITS - 1))
  /\ convert board b
     = map (fun x => of_Z (x / 2 ^ (SAMPLE_BITS board - MIC_BITS))) b.
Proof.
  intros Hbits. unfold convert, MIC_CONVERT.
  set (k := SAMPLE_BITS board - MIC_BITS).
  assert (Hk : 0 <= k) by (subst k; lia).
  assert (Hp : 0 < 2 ^ k) by (apply Z.pow_pos_nonneg; lia).
  split; [apply Z.shiftr_div_pow2, Hk|].
  split; [intros i Hi; apply Z.shiftr_spec, Hi|].
  split.
  - rewrite Z.shiftr_div_pow2 by exact Hk. split; intros Hs.
    + apply Z.div_lt_upper_bound; lia.
    + destruct (Z.lt_ge_cases s 0) as [Hneg|Hpos]; [exact Hneg|].
      pose proof (Z.div_pos s (2 ^ k) Hpos Hp). lia.
  - split.
    + intros [Hlo Hhi]. rewrite Z.shiftr_div_pow2 by exact Hk.
      assert (Hsplit : 2 ^ (SAMPLE_BITS board - 1)
                       = 2 ^ (MIC_BITS - 1) * 2 ^ k).
      { rewrite <- Z.pow_add_r by (unfold MIC_BITS; lia).
        f_equal. subst k. lia. }
      rewrite Hsplit in Hlo, Hhi. split.
      * apply Z.div_le_lower_bound; lia.
      * apply Z.div_lt_upper_bound; lia.
    + apply map_ext. intros x.
      rewrite Z.shiftr_div_pow2 by exact Hk. reflexivity.
Qed.

(** ** Whole windows, cadence and conversion *)

Lemma read_not_emitted m b :
  Leq_samples m + size b < SAMPLES_LEQ board ->
  readMicrophoneData m b = (None, accumulate m b).
Proof.
  intros Hless. apply Z.leb_gt in Hless.
  unfold readMicrophoneData, emit. unfold SAMPLES_LEQ in Hless.
  rewrite accumulate_samples, Hless. reflexivity.
Qed.

Lemma outputs_app blocks : forall m more,
  outputs m (blocks ++ more)
  = outputs m blocks ++ outputs (after m blocks) more.
Proof.
  induction blocks as [|c rest IH]; intros m more.
  - reflexivity.
  - change ((c :: rest) ++ more) with (c :: (rest ++ more)).
    rewrite (outputs_cons m c (rest ++ more)), (outputs_cons m c rest), IH.
    reflexivity.
Qed.

Lemma steps_app blocks : forall m more,
  steps m (blocks ++ more) = steps m blocks ++ steps (after m blocks) more.
Proof.
  induction blocks as [|c rest IH]; intros m more; simpl.
  - reflexivity.
  - rewrite IH. reflexivity.
Qed.

Lemma total_size_nonneg blocks : 0 <= total_size blocks.
Proof.
  induction blocks as [|c rest IH]; simpl.
  - lia.
  - pose proof (size_nonneg c). lia.
Qed.

Lemma total_size_app blocks more :
  total_size (blocks ++ more) = total_size blocks + total_size more.
Proof. induction blocks as [|c rest IH]; simpl; lia. Qed.

(** While no call clamps and the window is not reached, the running sum
    gains the weighted sums in order and nothing is answered. *)
Lemma run_without_clamp blocks : forall m,
  Leq_samples m + total_size blocks < SAMPLES_LEQ board ->
  no_clamp m blocks = true ->
  Leq_sum_sqr (after m blocks)
  = fold_left fadd (map snd (steps m blocks)) (Leq_sum_sqr m)
  /\ Leq_samples (after m blocks) = Leq_samples m + total_size blocks
  /\ outputs m blocks = repeat None (length blocks).
Proof.
  induction blocks as [|c rest IH]; intros m Hless Hno.
  - simpl. repeat split. lia.
  - simpl in Hless. pose proof (total_size_nonneg rest) as Hrest.
    unfold no_clamp in Hno. simpl in Hno.
    apply andb_true_iff in Hno as [Hc Hno].
    apply negb_true_iff in Hc. unfold clamps in Hc.
    apply orb_false_iff in Hc as [Hover Hnoise].
    rewrite outputs_cons. simpl after. simpl steps.
    rewrite (read_not_emitted m c) in * by lia. simpl fst. simpl snd in *.
    destruct (IH (accumulate m c)) as (Hsum & Hcount & Hout).
    + rewrite accumulate_samples. lia.
    + exact Hno.
    + rewrite Hsum, Hcount, Hout, accumulate_samples, accumulate_sum.
      unfold clamp. rewrite Hover, Hnoise. simpl. repeat split. lia.
Qed.

(** X6.  In a run in which no call clamps and only the last call reaches the
    window, every call but the last answers nothing and the last answers
    the level of the running sum it started from plus the weighted sums of
    squares of all the blocks, added in order, over the count it started
    from plus the samples of all the blocks.  From start-up that is the
    level of the mean weighted square over the whole window. *)
Theorem window_level_without_clamp m blocks b :
  Leq_samples m + total_size blocks < SAMPLE_RATE board * LEQ_PERIOD ->
  SAMPLE_RATE board * LEQ_PERIOD
    <= Leq_samples m + total_size (blocks ++ [b]) ->
  no_clamp m (blocks ++ [b]) = true ->
  outputs m (blocks ++ [b])
  = repeat None (length blocks)
    ++ [Some (Leq_dB
                (fold_left fadd (map snd (steps m (blocks ++ [b])))
                   (Leq_sum_sqr m))
                (Leq_samples m + total_size (blocks ++ [b])))].
Proof.
  intros Hless Hfull Hno.
  unfold no_clamp in Hno. rewrite steps_app, forallb_app in Hno.
  apply andb_true_iff in Hno as [Hno Hlast].
  destruct (run_without_clamp blocks m Hless Hno) as (Hsum & Hcount & Hout).
  rewrite outputs_app, Hout. f_equal.
  simpl in Hlast. rewrite andb_true_r in Hlast.
  apply negb_true_iff in Hlast. unfold clamps in Hlast.
  apply orb_false_iff in Hlast as [Hover Hnoise].
  rewrite total_size_app in *. simpl total_size in *.
  rewrite outputs_cons. simpl outputs. rewrite read_output.
  unfold SAMPLES_LEQ.
  replace (SAMPLE_RATE board * LEQ_PERIOD
           <=? Leq_samples (after m blocks) + size b) with true
    by (symmetry; apply Z.leb_le; lia).
  rewrite accumulate_sum. unfold clamp. rewrite Hover, Hnoise.
  rewrite steps_app, map_app, fold_left_app. simpl.
  rewrite Hsum, Hcount. do 3 f_equal. lia.
Qed.

(** X7.  A block on which either clamp fires discards what the window had
    accumulated: two meters that differ only in their running sum answer
    the same on that block, end as the same meter and answer the same on
    all later blocks. *)
Theorem clamp_discards_earlier_sum m1 m2 b rest :
  eq_w m1 = eq_w m2 ->
  weighting_w m1 = weighting_w m2 ->
  Leq_samples m1 = Leq_samples m2 ->
  clamps board (short_SPL_dB m1 b) = true ->
  readMicrophoneData m1 b = readMicrophoneData m2 b
  /\ outputs m1 (b :: rest) = outputs m2 (b :: rest).
Proof.
  intros H1 H2 H3 Hfire.
  assert (Hclamp : forall s1 s2,
             clamp board (short_SPL_dB m1 b) s1
             = clamp board (short_SPL_dB m1 b) s2).
  { intros s1 s2. unfold clamp. unfold clamps in Hfire.
    destruct (overload board (short_SPL_dB m1 b)); [reflexivity|].
    simpl in Hfire. rewrite Hfire. reflexivity. }
  assert (Hacc : accumulate m1 b = accumulate m2 b).
  { unfold accumulate.
    rewrite <- (short_SPL_dB_same m1 m2 b H1 H2).
    rewrite <- (filtered_same m1 m2 b H1 H2), <- H3.
    rewrite (Hclamp (Leq_sum_sqr m1) (Leq_sum_sqr m2)). reflexivity. }
  assert (Hread : readMicrophoneData m1 b = readMicrophoneData m2 b).
  { unfold readMicrophoneData. rewrite Hacc. reflexivity. }
  split; [exact Hread|]. rewrite !outputs_cons, Hread. reflexivity.
Qed.

(** X8.  When the first block of a run clamps, no later block clamps and
    only the last call reaches the window, the last call answers the level
    of the threshold of the clamp plus the weighted sums of squares of all
    the blocks from the clamped one on, added in order, over the count: the
    running sum from before the clamped block has no part in it. *)
Theorem window_level_after_clamp m b0 rest b :
  clamps board (short_SPL_dB m b0) = true ->
  Leq_samples m + total_size (b0 :: rest) < SAMPLE_RATE board * LEQ_PERIOD ->
  SAMPLE_RATE board * LEQ_PERIOD
    <= Leq_samples m + total_size (b0 :: rest ++ [b]) ->
  no_clamp (snd (readMicrophoneData m b0)) (rest ++ [b]) = true ->
  outputs m (b0 :: rest ++ [b])
  = repeat None (S (length rest))
    ++ [Some (Leq_dB
                (fold_left fadd (map snd (steps m (b0 :: rest ++ [b])))
                   (if overload board (short_SPL_dB m b0)
                    then MIC_OVERLOAD_DB board else MIC_NOISE_DB board))
                (Leq_samples m + total_size (b0 :: rest ++ [b])))].
Proof.
  intros Hfire Hless Hfull Hno.
  pose proof (total_size_nonneg rest) as Hrest.
  simpl total_size in Hless, Hfull.
  assert (Hfirst : readMicrophoneData m b0 = (None, accumulate m b0))
    by (apply read_not_emitted; unfold SAMPLES_LEQ; lia).
  rewrite Hfirst in Hno. simpl snd in Hno.
  rewrite outputs_cons, Hfirst. simpl fst. simpl snd.
  rewrite (window_level_without_clamp (accumulate m b0) rest b);
    try (rewrite accumulate_samples; lia); try exact Hno.
  simpl repeat. simpl app.
  assert (Hsum : Leq_sum_sqr (accumulate m b0)
                 = fadd (if overload board (short_SPL_dB m b0)
                         then MIC_OVERLOAD_DB board else MIC_NOISE_DB board)
                        (sum_sqr_weighted m b0)).
  { rewrite accumulate_sum. f_equal. unfold clamp. unfold clamps in Hfire.
    destruct (overload board (short_SPL_dB m b0)); [reflexivity|].
    simpl in Hfire. rewrite Hfire. reflexivity. }
  simpl steps. rewrite Hfirst. simpl snd. simpl map. simpl fold_left.
  rewrite Hsum, accumulate_samples.
  replace (Leq_samples m + size b0 + total_size (rest ++ [b]))
    with (Leq_samples m + (size b0 + total_size (rest ++ [b]))) by lia.
  reflexivity.
Qed.

Lemma read_filters m b :
  (eq_w (snd (readMicrophoneData m b)),
   weighting_w (snd (readMicrophoneData m b)))
  = filter_pair board (eq_w m, weighting_w m) b.
Proof.
  unfold readMicrophoneData, emit, accumulate, filtered, filter_pair.
  simpl fst. simpl snd.
  destruct (filter (MIC_EQUALIZER board) (eq_w m) (convert board b))
    as [[w1 xs] s1].
  destruct (filter (WEIGHTING board) (weighting_w m) xs) as [[w2 ys] s2].
  simpl. destruct (_ <=? _); reflexivity.
Qed.

(** X5.  Through any run the delay lines of the two filters are what the
    filters alone make of the blocks, fed in order, the equalizer's output
    going to the weighting filter: neither a clamp nor the reset at the end
    of a window touches them. *)
Theorem delay_lines_follow_the_blocks blocks : forall m,
  (eq_w (after m blocks), weighting_w (after m blocks))
  = filters_run board (eq_w m, weighting_w m) blocks.
Proof.
  induction blocks as [|c rest IH]; intros m.
  - reflexivity.
  - simpl after. rewrite IH, read_filters. reflexivity.
Qed.

(** With blocks of [n] samples each, the count after [i] calls is [n] times
    the remainder of [i] by the number of blocks that fill a window. *)
Lemma uniform_samples_ceil (n : Z) blocks : forall m,
  0 < n -> 0 < SAMPLES_LEQ board ->
  Forall (fun b => size b = n) blocks ->
  Leq_samples m = 0 ->
  Leq_samples (after m blocks)
  = n * (Z.of_nat (length blocks) mod ((SAMPLES_LEQ board + n - 1) / n)).
Proof.
  intros m Hn HW. set (W := SAMPLES_LEQ board) in *.
  set (k := (W + n - 1) / n).
  assert (Hk : 0 < k /\ n * (k - 1) < W <= n * k).
  { subst k. pose proof (Z.div_mod (W + n - 1) n ltac:(lia)).
    pose proof (Z.mod_pos_bound (W + n - 1) n Hn). nia. }
  induction blocks as [|c rest IH] using rev_ind; intros Hall Hm.
  - simpl. rewrite Hm, Z.mod_0_l by lia. lia.
  - apply Forall_app in Hall as [Hrest Hc]. apply Forall_inv in Hc.
    rewrite after_app, read_samples, (IH Hrest Hm), Hc.
    rewrite length_app, Nat2Z.inj_add. simpl length.
    change (Z.of_nat 1) with 1. rewrite succ_mod by lia.
    pose proof (Z.mod_pos_bound (Z.of_nat (length rest)) k ltac:(lia)) as Hq.
    fold W.
    destruct (Z.eqb_spec (Z.of_nat (length rest) mod k) (k - 1)) as [E|E];
      destruct (Z.leb_spec W (n * (Z.of_nat (length rest) mod k) + n)); nia.
Qed.

(** X3.  With a positive window of [W] samples and blocks of [n] samples
    each, a run from start-up answers on every [k]-th call, [k] being [W / n]
    rounded up, and on no other call; the value of such a call is the level
    of the running sum over [n * k] samples, the window rounded up to whole
    blocks. *)
Theorem uniform_blocks_cadence
    (w1 : fstate (MIC_EQUALIZER board)) (w2 : fstate (WEIGHTING board))
    (n : Z) blocks (i : nat) :
  0 < n ->
  0 < SAMPLE_RATE board * LEQ_PERIOD ->
  Forall (fun b => size b = n) blocks ->
  (i < length blocks)%nat ->
  nth i (outputs (start board w1 w2) blocks) None
  = if (Z.of_nat i + 1) mod ((SAMPLE_RATE board * LEQ_PERIOD + n - 1) / n)
       =? 0
    then Some (Leq_dB
                 (Leq_sum_sqr
                    (accumulate
                       (after (start board w1 w2) (firstn i blocks))
                       (nth i blocks [])))
                 (n * ((SAMPLE_RATE board * LEQ_PERIOD + n - 1) / n)))
    else None.
Proof.
  intros Hn HW Hall Hi.
  rewrite outputs_nth by exact Hi. rewrite read_output.
  assert (Hb : size (nth i blocks []) = n).
  { rewrite Forall_forall in Hall. apply Hall, nth_In, Hi. }
  rewrite (uniform_samples_ceil n (firstn i blocks)); try assumption.
  - unfold SAMPLES_LEQ.
    set (W := SAMPLE_RATE board * LEQ_PERIOD) in *.
    set (k := (W + n - 1) / n).
    assert (Hk : 0 < k /\ n * (k - 1) < W <= n * k).
    { subst k. pose proof (Z.div_mod (W + n - 1) n ltac:(lia)).
      pose proof (Z.mod_pos_bound (W + n - 1) n Hn). nia. }
    rewrite Hb, length_firstn, Nat.min_l by lia.
    rewrite succ_mod by lia.
    pose proof (Z.mod_pos_bound (Z.of_nat i) k ltac:(lia)) as Hq.
    destruct (Z.eqb_spec (Z.of_nat i mod k) (k - 1)) as [E|E].
    + rewrite E. simpl (0 =? 0).
      replace (W <=? n * (k - 1) + n) with true
        by (symmetry; apply Z.leb_le; nia).
      do 2 f_equal. lia.
    + replace (W <=? n * (Z.of_nat i mod k) + n) with false
        by (symmetry; apply Z.leb_gt; nia).
      destruct (Z.eqb_spec (Z.of_nat i mod k + 1) 0); [lia|reflexivity].
  - rewrite <- (firstn_skipn i blocks) in Hall.
    apply Forall_app in Hall. apply Hall.
  - reflexivity.
Qed.

(** X4.  With a positive window, whatever the sizes of the blocks, a value
    answered in a run from start-up is the level of the running sum over a
    count that is at least the window and less than the window plus the
    block of that call: samples beyond the window are averaged in, not
    carried to the next window. *)
Theorem window_count_bounds
    (w1 : fstate (MIC_EQUALIZER board)) (w2 : fstate (WEIGHTING board))
    blocks b (v : F) :
  0 < SAMPLE_RATE board * LEQ_PERIOD ->
  fst (readMicrophoneData (after (start board w1 w2) blocks) b) = Some v ->
  v = Leq_dB
        (Leq_sum_sqr (accumulate (after (start board w1 w2) blocks) b))
        (Leq_samples (after (start board w1 w2) blocks) + size b)
  /\ SAMPLE_RATE board * LEQ_PERIOD
     <= Leq_samples (after (start board w1 w2) blocks) + size b
     < SAMPLE_RATE board * LEQ_PERIOD + size b
  /\ Leq_samples
       (snd (readMicrophoneData (after (start board w1 w2) blocks) b))
     = 0.
Proof.
  intros HW Hv. set (m := after (start board w1 w2) blocks) in *.
  assert (Hhi : Leq_samples m < SAMPLES_LEQ board).
  { apply (samples_below_window blocks); [exact HW | simpl; exact HW]. }
  rewrite read_output in Hv. rewrite read_samples.
  unfold SAMPLES_LEQ in *.
  destruct (Z.leb_spec (SAMPLE_RATE board * LEQ_PERIOD)
              (Leq_samples m + size b)) as [Hfull|Hless].
  - injection Hv as Hv. split; [symmetry; exact Hv|]. split; [lia|reflexivity].
  - discriminate Hv.
Qed.

(** X1.  A value placed in the upper [MIC_BITS] bits of a sample word comes
    back from the conversion whatever the [SAMPLE_BITS - MIC_BITS] bits
    below it hold. *)
Theorem convert_recovers_upper_bits (v r : Z) :
  MIC_BITS <= SAMPLE_BITS board ->
  0 <= r < 2 ^ (SAMPLE_BITS board - MIC_BITS) ->
  MIC_CONVERT board (Z.shiftl v (SAMPLE_BITS board - MIC_BITS) + r) = v.
Proof.
  intros Hbits Hr. unfold MIC_CONVERT.
  set (k := SAMPLE_BITS board - MIC_BITS) in *.
  assert (Hk : 0 <= k) by (subst k; lia).
  rewrite Z.shiftr_div_pow2, Z.shiftl_mul_pow2 by exact Hk.
  rewrite Z.div_add_l by lia. rewrite Z.div_small by exact Hr. lia.
Qed.

(** X2.  The conversion keeps the order of the samples and rounds down:
    the converted value, put back in the upper bits, is at most the sample
    and less than one step of the microphone's resolution below it, for
    negative samples too. *)
Theorem convert_monotone_and_rounds_down (s t : Z) :
  MIC_BITS <= SAMPLE_BITS board ->
  (s <= t -> MIC_CONVERT board s <= MIC_CONVERT board t)
  /\ 0 <= s - Z.shiftl (MIC_CONVERT board s) (SAMPLE_BITS board - MIC_BITS)
       < 2 ^ (SAMPLE_BITS board - MIC_BITS).
Proof.
  intros Hbits. unfold MIC_CONVERT.
  set (k := SAMPLE_BITS board - MIC_BITS) in *.
  assert (Hk : 0 <= k) by (subst k; lia).
  assert (Hp : 0 < 2 ^ k) by (apply Z.pow_pos_nonneg; lia).
  rewrite Z.shiftl_mul_pow2, !Z.shiftr_div_pow2 by exact Hk. split.
  - intros Hst. apply Z.div_le_mono; lia.
  - pose proof (Z.div_mod s (2 ^ k) ltac:(lia)).
    pose proof (Z.mod_pos_bound s (2 ^ k) Hp). lia.
Qed.

End MeterFacts.

(** ** Ranges of the single-precision operations *)

(** The lemmas of this part follow the order of magnitude of a number, the
    digits of its significand plus its exponent, through rounding and
    through the operations that the reported level is made of. *)







































(** ** Evaluation in single precision *)

(** On the board of [Single] the filters keep no delay line, so the level
    and the sums of a block are those of the meter at start-up. *)
Lemma single_level_same (m : SPLMeter Single.board) b :
  short_SPL_dB m b = short_SPL_dB Single.meter b.
Proof.
  apply short_SPL_dB_same.
  - destruct (eq_w m), (eq_w Single.meter). reflexivity.
  - destruct (weighting_w m), (weighting_w Single.meter). reflexivity.
Qed.

Lemma single_weighted_same (m : SPLMeter Single.board) b :
  sum_sqr_weighted m b = sum_sqr_weighted Single.meter b.
Proof.
  unfold sum_sqr_weighted. f_equal. apply filtered_same.
  - destruct (eq_w m), (eq_w Single.meter). reflexivity.
  - destruct (weighting_w m), (weighting_w Single.meter). reflexivity.
Qed.

(** The reference amplitude is 420426.3125. *)
Example single_MIC_REF_AMPL :
  @MIC_REF_AMPL Single.float _ = S754_finite false 13453642 (-5).
Proof. vm_compute. reflexivity. Qed.

(** The levels of the three blocks: minus infinity, 53.77 dB and 120 dB. *)
Example single_levels :
  short_SPL_dB Single.meter Single.silent = S754_infinity true
  /\ short_SPL_dB Single.meter Single.moderate
     = S754_finite false 14096375 (-18)
  /\ short_SPL_dB Single.meter Single.loud
     = S754_finite false 15728640 (-17).
Proof. vm_compute. auto. Qed.

(** A meter of that board is fixed by its two accumulators. *)
Lemma single_meter_eta (m : SPLMeter Single.board) :
  m = Single.meter_with (Leq_sum_sqr m) (Leq_samples m).
Proof. destruct m as [e w s c]. destruct e, w. reflexivity. Qed.

(** After 47 silent blocks the meter holds the noise-floor threshold as its
    running sum and 47000 samples. *)
Lemma single_after_silence :
  after Single.meter (repeat Single.silent 47)
  = Single.meter_with (Single.of_int 29) 47000.
Proof.
  rewrite (single_meter_eta (after Single.meter (repeat Single.silent 47))).
  f_equal; vm_compute; reflexivity.
Qed.

(** C2.  The code on a window that ends in overload.  After 47 silent
    blocks a block at full scale has a short-block level of 120 dB, above
    the overload threshold of 116 dB, and closes the window.  The running
    sum the value is computed from is the threshold plus the block's
    weighted sum of squares, about 7.04e16, and the value is 103.19 dB: a
    finite level below the threshold, and not the level of the threshold
    taken as a sum of squares over the 48000 samples, which is -44.64 dB.
    The overload does not decide what the window reports. *)
Lemma overload_level_is_not_the_threshold_level :
  overload Single.board
    (short_SPL_dB (after Single.meter (repeat Single.silent 47)) Single.loud)
  = true
  /\ Leq_sum_sqr
       (accumulate (after Single.meter (repeat Single.silent 47)) Single.loud)
     = S754_finite false 16383999 32
  /\ fst (readMicrophoneData
            (after Single.meter (repeat Single.silent 47)) Single.loud)
     = Some (S754_finite false 13525004 (-17))
  /\ Leq_dB (MIC_OVERLOAD_DB Single.board) 48000
     = S754_finite true 11702536 (-18)
  /\ fst (readMicrophoneData
            (after Single.meter (repeat Single.silent 47)) Single.loud)
     <> Some (Leq_dB (MIC_OVERLOAD_DB Single.board) 48000)
  /\ flt (S754_finite false 13525004 (-17)) (MIC_OVERLOAD_DB Single.board)
     = true.
Proof.
  rewrite single_after_silence.
  assert (H : fst (readMicrophoneData
                     (Single.meter_with (Single.of_int 29) 47000)
                     Single.loud)
              = Some (S754_finite false 13525004 (-17)))
    by (vm_compute; reflexivity).
  assert (L : Leq_dB (MIC_OVERLOAD_DB Single.board) 48000
              = S754_finite true 11702536 (-18))
    by (vm_compute; reflexivity).
  split; [vm_compute; reflexivity|].
  split; [vm_compute; reflexivity|].
  split; [exact H|]. split; [exact L|].
  split; [rewrite H, L; discriminate|].
  vm_compute. reflexivity.
Qed.

(** C3.  The code on a silent window.  A window of 48 silent blocks
    answers one value, -50.66 dB: a finite number, but far below the
    noise-floor threshold of 29 dB, at which the reported level does not
    floor. *)
Lemma silent_window_is_below_the_noise_floor :
  outputs Single.meter (repeat Single.silent 48)
  = repeat None 47 ++ [Some (S754_finite true 13280800 (-18))]
  /\ flt (S754_finite true 13280800 (-18)) (MIC_NOISE_DB Single.board) = true.
Proof. vm_compute. auto. Qed.



(** Two windows of silent blocks: of 96 calls, the 48th and the 96th
    answer. *)
Example single_two_windows :
  map emitted (outputs Single.meter (repeat Single.silent 96))
  = repeat false 47 ++ [true] ++ repeat false 47 ++ [true].
Proof. vm_compute. reflexivity. Qed.

(** An overload at the start of a window does not outlast it: after a block
    at full scale, 47 silent blocks each set the running sum back to the
    noise-floor threshold, and the window answers -50.66 dB. *)
Example single_overload_then_silence :
  outputs Single.meter (Single.loud :: repeat Single.silent 47)
  = repeat None 47 ++ [Some (S754_finite true 13280800 (-18))].
Proof. vm_compute. reflexivity. Qed.

(** ** Instances of the statements above *)

Lemma accumulator_invariant_single :
  0 < SAMPLE_RATE Single.board * LEQ_PERIOD
  /\ 0 <= Leq_samples (after (start Single.board tt tt) [Single.silent])
       < SAMPLE_RATE Single.board * LEQ_PERIOD.
Proof.
  split; [reflexivity|].
  exact (proj1 (accumulator_invariant Single.board tt tt [Single.silent]
                  Single.silent eq_refl)).
Defined.

Lemma forty_eight_blocks_single :
  SAMPLE_RATE Single.board = 48000
  /\ Forall (fun b => size b = 1000) (repeat Single.silent 96)
  /\ (47 < length (repeat Single.silent 96))%nat
  /\ emitted
       (nth 47 (outputs (start Single.board tt tt) (repeat Single.silent 96))
            None)
     = ((Z.of_nat 47 + 1) mod 48 =? 0).
Proof.
  assert (Hall : Forall (fun b => size b = 1000) (repeat Single.silent 96)).
  { apply Forall_forall. intros x Hx. apply repeat_spec in Hx.
    rewrite Hx. reflexivity. }
  assert (Hlen : (47 < length (repeat Single.silent 96))%nat)
    by (apply Nat.ltb_lt; reflexivity).
  split; [reflexivity|]. split; [exact Hall|]. split; [exact Hlen|].
  exact (forty_eight_blocks_per_emission Single.board tt tt
           (repeat Single.silent 96) 47 eq_refl Hall Hlen).
Defined.

Lemma convert_is_arithmetic_shift_single :
  MIC_BITS <= SAMPLE_BITS Single.board
  /\ MIC_CONVERT Single.board (-1000)
     = -1000 / 2 ^ (SAMPLE_BITS Single.board - MIC_BITS).
Proof.
  assert (Hbits : MIC_BITS <= SAMPLE_BITS Single.board)
    by (unfold MIC_BITS; simpl; lia).
  split; [exact Hbits|].
  exact (proj1 (convert_is_arithmetic_shift Single.board (-1000) [] Hbits)).
Defined.

Lemma clamp_keeps_current_block_single :
  overload Single.board
    (short_SPL_dB (Single.meter_with (Single.of_int 12345) 47000)
       Single.quiet)
    || below_noise Single.board
         (short_SPL_dB (Single.meter_with (Single.of_int 12345) 47000)
            Single.quiet)
  = true
  /\ Leq_sum_sqr
       (accumulate (Single.meter_with (Single.of_int 12345) 47000)
          Single.quiet)
     = Single.of_int (29 + 55696000)
  /\ Leq_samples
       (accumulate (Single.meter_with (Single.of_int 12345) 47000)
          Single.quiet)
     = 47000 + 1000
  /\ fst (readMicrophoneData (Single.meter_with (Single.of_int 12345) 47000)
            Single.quiet)
     = Some (Leq_dB (Single.of_int (29 + 55696000)) (47000 + 1000)).
Proof.
  assert (Hfire :
            overload Single.board
              (short_SPL_dB (Single.meter_with (Single.of_int 12345) 47000)
                 Single.quiet)
            || below_noise Single.board
                 (short_SPL_dB (Single.meter_with (Single.of_int 12345) 47000)
                    Single.quiet) = true)
    by (vm_compute; reflexivity).
  destruct (clamp_keeps_current_block Single.board
              (Single.meter_with (Single.of_int 12345) 47000)
              Single.quiet Hfire) as (Hsum & Hcount & Hout).
  assert (Hvalue :
            fadd (if overload Single.board
                       (short_SPL_dB
                          (Single.meter_with (Single.of_int 12345) 47000)
                          Single.quiet)
                  then MIC_OVERLOAD_DB Single.board
                  else MIC_NOISE_DB Single.board)
                 (sum_sqr_weighted
                    (Single.meter_with (Single.of_int 12345) 47000)
                    Single.quiet)
            = Single.of_int (29 + 55696000))
    by (vm_compute; reflexivity).
  split; [exact Hfire|].
  split; [rewrite Hsum; exact Hvalue|].
  split; [rewrite Hcount; reflexivity|].
  rewrite Hout, Hvalue. reflexivity.
Defined.


(** ** timestamp.h *)

(** C10.  A timestamp is valid exactly when its time is at least 57600
    seconds, twice eight hours, after the epoch; a clock that still holds a
    time below that is reported as not valid. *)
Theorem valid_iff_past_threshold (t : Timestamp) :
  (valid t = true <-> 57600 <= tm t)
  /\ (valid t = false <-> tm t < 57600).
Proof.
  unfold valid. change (8 * 3600 * 2) with 57600. split.
  - apply Z.leb_le.
  - apply Z.leb_gt.
Qed.

(** X9.  [synchronize] returns exactly when some reading of the clock is
    valid: it stops at the first valid reading, has then waited once for
    that reading and once for every reading before it, all of which were
    not valid, and leaves the later readings unread.  It waits at least
    once, also when the first reading is already valid. *)
Theorem synchronize_stops_at_first_valid (clock : list Z)
    (waits : nat) (unread : list Z) :
  synchronize clock = Some (waits, unread)
  <-> exists early time,
        clock = early ++ time :: unread
        /\ waits = S (length early)
        /\ Forall (fun t => valid (now t) = false) early
        /\ valid (now time) = true.
Proof.
  revert waits unread.
  induction clock as [|t rest IH]; intros waits unread; simpl.
  - split; [discriminate|].
    intros (early & time & Hc & _). destruct early; discriminate Hc.
  - destruct (valid (now t)) eqn:Ht.
    + split.
      * intros H. injection H as <- <-. exists [], t. repeat split; auto.
      * intros (early & time & Hc & Hw & Hall & Hv).
        destruct early as [|e early].
        -- simpl in Hc. injection Hc as _ <-. subst waits. reflexivity.
        -- simpl in Hc. injection Hc as <- _. apply Forall_inv in Hall.
           congruence.
    + destruct (synchronize rest) as [[w u]|] eqn:Hrest.
      * split.
        -- intros H. injection H as <- <-.
           destruct (proj1 (IH w u) eq_refl) as (early & time & Hc & Hw & Ha & Hv).
           exists (t :: early), time. subst rest w. repeat split; auto.
        -- intros (early & time & Hc & Hw & Hall & Hv).
           destruct early as [|e early].
           ++ simpl in Hc. injection Hc as <- _. congruence.
           ++ simpl in Hc. injection Hc as <- Hc.
              apply Forall_inv_tail in Hall.
              assert (Hsome : Some (w, u) = Some (length early + 1, unread)%nat).
              { apply IH. exists early, time. repeat split; auto. lia. }
              injection Hsome as -> ->. subst waits. simpl. do 3 f_equal. lia.
      * split; [discriminate|].
        intros (early & time & Hc & Hw & Hall & Hv).
        destruct early as [|e early].
        -- simpl in Hc. injection Hc as <- _. congruence.
        -- simpl in Hc. injection Hc as <- Hc.
           apply Forall_inv_tail in Hall.
           assert (Hsome : None = Some (S (length early), unread)).
           { apply IH. exists early, time. repeat split; auto. }
           discriminate Hsome.
Qed.

(** X10.  [synchronize] is still in its loop after the last reading exactly
    when every reading is below 57600 seconds: with a clock that is never
    set it does not return. *)
Theorem synchronize_waits_while_unset (clock : list Z) :
  synchronize clock = None <-> Forall (fun t => t < 57600) clock.
Proof.
  induction clock as [|t rest IH]; simpl.
  - split; auto.
  - unfold valid, now. simpl tm. change (8 * 3600 * 2) with 57600.
    destruct (Z.leb_spec 57600 t) as [Hv|Hv].
    + split; [discriminate|]. intros H. apply Forall_inv in H. lia.
    + destruct (synchronize rest) as [[w u]|].
      * split; [discriminate|]. intros H. apply Forall_inv_tail in H.
        apply IH in H. discriminate H.
      * split; [|reflexivity]. intros _. constructor; [exact Hv|].
        apply IH. reflexivity.
Qed.

(** X11.  On a clock that never runs backwards, once [synchronize] has
    returned every timestamp built from a later reading is valid. *)
Theorem timestamps_valid_after_synchronize (clock : list Z)
    (waits : nat) (unread : list Z) :
  StronglySorted Z.le clock ->
  synchronize clock = Some (waits, unread) ->
  Forall (fun t => valid (now t) = true) unread.
Proof.
  revert waits. induction clock as [|t rest IH]; intros waits Hs H; simpl in H.
  - discriminate H.
  - apply StronglySorted_inv in Hs as [Hrest Hle].
    destruct (valid (now t)) eqn:Ht.
    + injection H as _ <-. unfold valid, now in *. simpl tm in *.
      apply Z.leb_le in Ht. apply Forall_forall. intros x Hx.
      rewrite Forall_forall in Hle. apply Z.leb_le.
      specialize (Hle x Hx). lia.
    + destruct (synchronize rest) as [[w u]|] eqn:Hr; [|discriminate H].
      injection H as _ <-. apply (IH w Hrest eq_refl).
Qed.

(** X12.  The configuration handed to the I2S driver gives the DMA banks
    room for at least one block of [SAMPLES_SHORT] samples and at most two,
    as soon as a block has 16 samples; with fewer the length of a bank is
    zero. *)
Theorem dma_banks_hold_a_block {F : Type} (board : Board F)
    (SAMPLES_SHORT : Z) :
  (16 <= SAMPLES_SHORT ->
   SAMPLES_SHORT
   <= dma_buf_count (i2s_config board SAMPLES_SHORT)
      * dma_buf_len (i2s_config board SAMPLES_SHORT)
   <= 2 * SAMPLES_SHORT)
  /\ (0 <= SAMPLES_SHORT < 16 ->
      dma_buf_len (i2s_config board SAMPLES_SHORT) = 0).
Proof.
  unfold i2s_config, DMA_BANKS, DMA_BANK_SIZE.
  cbn [dma_buf_count dma_buf_len]. split.
  - intros HS. rewrite Z.quot_div_nonneg by lia.
    pose proof (Z.div_mod SAMPLES_SHORT 16 ltac:(lia)) as Hd.
    pose proof (Z.mod_pos_bound SAMPLES_SHORT 16 ltac:(lia)) as Hm.
    assert (1 <= SAMPLES_SHORT / 16)
      by (apply Z.div_le_lower_bound; lia).
    lia.
  - intros HS. apply Z.quot_small. exact HS.
Qed.

(** Blocks of 4999 samples: ten of them fill the window of 48000, and the
    tenth call is the first to answer. *)
Example single_cadence_4999 :
  map emitted (outputs Single.meter (repeat (repeat 0 4999) 10))
  = repeat false 9 ++ [true].
Proof. vm_compute. reflexivity. Qed.

(** ** Instances of the further statements *)

Lemma convert_recovers_upper_bits_single :
  MIC_BITS <= SAMPLE_BITS Single.board
  /\ 0 <= 200 < 2 ^ (SAMPLE_BITS Single.board - MIC_BITS)
  /\ MIC_CONVERT Single.board
       (Z.shiftl (-5) (SAMPLE_BITS Single.board - MIC_BITS) + 200)
     = -5.
Proof.
  assert (Hbits : MIC_BITS <= SAMPLE_BITS Single.board)
    by (unfold MIC_BITS; simpl; lia).
  assert (Hr : 0 <= 200 < 2 ^ (SAMPLE_BITS Single.board - MIC_BITS))
    by (unfold MIC_BITS; simpl; lia).
  split; [exact Hbits|]. split; [exact Hr|].
  exact (convert_recovers_upper_bits Single.board (-5) 200 Hbits Hr).
Defined.

Lemma convert_monotone_and_rounds_down_single :
  MIC_BITS <= SAMPLE_BITS Single.board
  /\ (-1000 <= 512 ->
      MIC_CONVERT Single.board (-1000) <= MIC_CONVERT Single.board 512).
Proof.
  assert (Hbits : MIC_BITS <= SAMPLE_BITS Single.board)
    by (unfold MIC_BITS; simpl; lia).
  split; [exact Hbits|].
  exact (proj1 (convert_monotone_and_rounds_down Single.board (-1000) 512
                  Hbits)).
Defined.

Lemma uniform_blocks_cadence_single :
  0 < 4999
  /\ 0 < SAMPLE_RATE Single.board * LEQ_PERIOD
  /\ Forall (fun b => size b = 4999) (repeat (repeat 0 4999) 10)
  /\ (9 < length (repeat (repeat 0 4999) 10))%nat
  /\ nth 9 (outputs (start Single.board tt tt) (repeat (repeat 0 4999) 10))
         None
     = if (Z.of_nat 9 + 1)
            mod ((SAMPLE_RATE Single.board * LEQ_PERIOD + 4999 - 1) / 4999)
          =? 0
       then Some (Leq_dB
                    (Leq_sum_sqr
                       (accumulate
                          (after (start Single.board tt tt)
                             (firstn 9 (repeat (repeat 0 4999) 10)))
                          (nth 9 (repeat (repeat 0 4999) 10) [])))
                    (4999
                     * ((SAMPLE_RATE Single.board * LEQ_PERIOD + 4999 - 1)
                        / 4999)))
       else None.
Proof.
  assert (Hall : Forall (fun b => size b = 4999) (repeat (repeat 0 4999) 10)).
  { apply Forall_forall. intros x Hx. apply repeat_spec in Hx.
    rewrite Hx. vm_compute. reflexivity. }
  assert (Hlen : (9 < length (repeat (repeat 0 4999) 10))%nat)
    by (apply Nat.ltb_lt; reflexivity).
  split; [reflexivity|]. split; [reflexivity|].
  split; [exact Hall|]. split; [exact Hlen|].
  exact (uniform_blocks_cadence Single.board tt tt 4999
           (repeat (repeat 0 4999) 10) 9 eq_refl eq_refl Hall Hlen).
Defined.

Lemma window_count_bounds_single :
  0 < SAMPLE_RATE Single.board * LEQ_PERIOD
  /\ fst (readMicrophoneData
            (after (start Single.board tt tt) (repeat Single.silent 47))
            Single.silent)
     = Some (S754_finite true 13280800 (-18))
  /\ SAMPLE_RATE Single.board * LEQ_PERIOD
     <= Leq_samples
          (after (start Single.board tt tt) (repeat Single.silent 47))
        + size Single.silent
     < SAMPLE_RATE Single.board * LEQ_PERIOD + size Single.silent.
Proof.
  assert (Hv : fst (readMicrophoneData
                      (after (start Single.board tt tt)
                         (repeat Single.silent 47))
                      Single.silent)
               = Some (S754_finite true 13280800 (-18)))
    by (vm_compute; reflexivity).
  split; [reflexivity|]. split; [exact Hv|].
  exact (proj1 (proj2
           (window_count_bounds Single.board tt tt (repeat Single.silent 47)
              Single.silent (S754_finite true 13280800 (-18)) eq_refl Hv))).
Defined.

Lemma window_level_without_clamp_single :
  no_clamp (Single.meter_with (Single.of_int 0) 46000)
    ([Single.moderate] ++ [Single.moderate])
  = true
  /\ outputs (Single.meter_with (Single.of_int 0) 46000)
       ([Single.moderate] ++ [Single.moderate])
     = repeat None (length [Single.moderate])
       ++ [Some (Leq_dB
                   (fold_left fadd
                      (map snd
                         (steps (Single.meter_with (Single.of_int 0) 46000)
                            ([Single.moderate] ++ [Single.moderate])))
                      (Leq_sum_sqr
                         (Single.meter_with (Single.of_int 0) 46000)))
                   (Leq_samples (Single.meter_with (Single.of_int 0) 46000)
                    + total_size ([Single.moderate] ++ [Single.moderate])))].
Proof.
  assert (Hno : no_clamp (Single.meter_with (Single.of_int 0) 46000)
                  ([Single.moderate] ++ [Single.moderate]) = true)
    by (vm_compute; reflexivity).
  split; [exact Hno|].
  apply (window_level_without_clamp Single.board
           (Single.meter_with (Single.of_int 0) 46000)
           [Single.moderate] Single.moderate).
  - vm_compute. reflexivity.
  - vm_compute. discriminate.
  - exact Hno.
Defined.

Lemma clamp_discards_earlier_sum_single :
  clamps Single.board
    (short_SPL_dB (Single.meter_with (Single.of_int 29) 47000) Single.silent)
  = true
  /\ readMicrophoneData (Single.meter_with (Single.of_int 29) 47000)
       Single.silent
     = readMicrophoneData (Single.meter_with (Single.of_int 5) 47000)
         Single.silent.
Proof.
  assert (Hfire :
            clamps Single.board
              (short_SPL_dB (Single.meter_with (Single.of_int 29) 47000)
                 Single.silent) = true)
    by (vm_compute; reflexivity).
  split; [exact Hfire|].
  exact (proj1
           (clamp_discards_earlier_sum Single.board
              (Single.meter_with (Single.of_int 29) 47000)
              (Single.meter_with (Single.of_int 5) 47000)
              Single.silent [] eq_refl eq_refl eq_refl Hfire)).
Defined.

Lemma window_level_after_clamp_single :
  clamps Single.board
    (short_SPL_dB (Single.meter_with (Single.of_int 7) 45000) Single.silent)
  = true
  /\ no_clamp
       (snd (readMicrophoneData (Single.meter_with (Single.of_int 7) 45000)
               Single.silent))
       ([Single.moderate] ++ [Single.moderate])
     = true
  /\ outputs (Single.meter_with (Single.of_int 7) 45000)
       (Single.silent :: [Single.moderate] ++ [Single.moderate])
     = repeat None (S (length [Single.moderate]))
       ++ [Some (Leq_dB
                   (fold_left fadd
                      (map snd
                         (steps (Single.meter_with (Single.of_int 7) 45000)
                            (Single.silent
                             :: [Single.moderate] ++ [Single.moderate])))
                      (if overload Single.board
                            (short_SPL_dB
                               (Single.meter_with (Single.of_int 7) 45000)
                               Single.silent)
                       then MIC_OVERLOAD_DB Single.board
                       else MIC_NOISE_DB Single.board))
                   (Leq_samples (Single.meter_with (Single.of_int 7) 45000)
                    + total_size
                        (Single.silent
                         :: [Single.moderate] ++ [Single.moderate])))].
Proof.
  assert (Hfire :
            clamps Single.board
              (short_SPL_dB (Single.meter_with (Single.of_int 7) 45000)
                 Single.silent) = true)
    by (vm_compute; reflexivity).
  assert (Hno :
            no_clamp
              (snd (readMicrophoneData
                      (Single.meter_with (Single.of_int 7) 45000)
                      Single.silent))
              ([Single.moderate] ++ [Single.moderate]) = true)
    by (vm_compute; reflexivity).
  split; [exact Hfire|]. split; [exact Hno|].
  apply (window_level_after_clamp Single.board
           (Single.meter_with (Single.of_int 7) 45000)
           Single.silent [Single.moderate] Single.moderate Hfire).
  - vm_compute. reflexivity.
  - vm_compute. discriminate.
  - exact Hno.
Defined.

Lemma timestamps_valid_after_synchronize_single :
  StronglySorted Z.le [0; 30000; 60000; 60001]
  /\ synchronize [0; 30000; 60000; 60001] = Some (3%nat, [60001])
  /\ Forall (fun t => valid (now t) = true) [60001].
Proof.
  assert (Hs : StronglySorted Z.le [0; 30000; 60000; 60001]).
  { repeat constructor; lia. }
  split; [exact Hs|]. split; [reflexivity|].
  exact (timestamps_valid_after_synchronize [0; 30000; 60000; 60001]
           3%nat [60001] Hs eq_refl).
Defined.
